(** * visu3d.plotly.traces_builder: [TraceNamer.set_name]

    A shallow embedding of [src/visu3d/plotly/traces_builder.py] and the
    properties of its single operation.

    The Python method mutates two things in place: the per-instance
    dictionary [name_to_count] and the [name] / [legendgroup] attributes
    of the trace objects it is handed.  Both live in an explicit store;
    traces are referred to by location, so that a list naming the same
    trace object twice is handled as Python handles it. *)

From Stdlib Require Import String Ascii DecimalString DecimalNat DecimalFacts.
From Stdlib Require Import List Arith Lia.
From stdpp Require Import base option list functions gmap strings.

Local Open Scope string_scope.

(** ** Python values *)

(** Exceptions.  [set_name] has one [raise] statement (line 51); the
    other kinds are the ones dictionary and attribute access can
    produce in Python, kept so that "which kind" is a real question. *)
Inductive exn : Type :=
| TypeError (msg : string)
| KeyError (key : string)
| AttributeError (msg : string).

(** A plotly trace, restricted to the two attributes the method reads
    or writes.  Either attribute may be unset ([None]) or hold a string,
    possibly the empty one. *)
Record Trace : Type := mkTrace {
  name : option string;
  legendgroup : option string
}.

(** Python truthiness of an attribute value: [None] and [''] are falsy. *)
Definition truthy (v : option string) : bool :=
  match v with
  | None => false
  | Some s => negb (String.eqb s "")
  end.

(** [str(n)] for a non-negative Python int. *)
Definition str_int (n : nat) : string :=
  NilZero.string_of_uint (Nat.to_uint n).

(** The f-string [f'{name} {curr_id}'] of lines 59 and 61. *)
Definition fmt_name_id (nm : string) (curr_id : nat) : string :=
  nm ++ " " ++ str_int curr_id.

(** ** The objects handed in as [array]

    [fig_utils.is_visualizable], [enp.lazy.is_array] and the runtime
    type of the argument are not part of this file; they are taken as an
    interface over an arbitrary type of source objects. *)
Class SourceOps (Source : Type) : Type := {
  (** [fig_utils.is_visualizable(array)] *)
  is_visualizable : Source -> bool;
  (** [enp.lazy.is_array(array)] *)
  is_array : Source -> bool;
  (** [type(array).__name__] *)
  type_name : Source -> string;
  (** [str(type(array))], as interpolated by the f-string of line 51 *)
  type_repr : Source -> string
}.

(** ** The store *)

(** Trace objects are referred to by location. *)
Definition loc : Type := nat.

(** [TraceNamer]: the dataclass of lines 28-34.  An [itertools.count()]
    is represented by the value its next [next()] will return; a key
    absent from the map is a key the [defaultdict] has not created yet. *)
Record TraceNamer : Type := mkTraceNamer {
  name_to_count : gmap string nat
}.

(** [TraceNamer()]: the default factory gives an empty [defaultdict]. *)
Definition new_TraceNamer : TraceNamer :=
  {| name_to_count := ∅ |}.

Record Store : Type := mkStore {
  self : TraceNamer;
  objs : loc -> Trace
}.

(** ** Computations that mutate the store and may raise

    The store is returned in both outcomes: a Python exception does not
    roll anything back. *)
Inductive outcome (A : Type) : Type :=
| Return (a : A)
| Raise (e : exn).
Arguments Return {A} a.
Arguments Raise {A} e.

Definition Py (A : Type) : Type := Store -> outcome A * Store.

#[global] Instance Py_ret : MRet Py :=
  fun A a s => (Return a, s).

#[global] Instance Py_bind : MBind Py :=
  fun A B k m s =>
    match m s with
    | (Return a, s') => k a s'
    | (Raise e, s') => (Raise e, s')
    end.

Definition raise {A : Type} (e : exn) : Py A :=
  fun s => (Raise e, s).

(** [next(self.name_to_count[key])]: the [defaultdict] lookup creates
    [itertools.count()] for a missing key, and [next] returns the
    counter's current value and advances it by one. *)
Definition next_count (key : string) : Py nat :=
  fun s =>
    let d := name_to_count (self s) in
    let n := default 0 (d !! key) in
    (Return n,
     {| self := {| name_to_count := <[key := S n]> d |};
        objs := objs s |}).

(** [trace.name] *)
Definition get_name (trace : loc) : Py (option string) :=
  fun s => (Return (name (objs s trace)), s).

(** [trace.name = v] *)
Definition assign_name (trace : loc) (v : string) : Py unit :=
  fun s =>
    let t := objs s trace in
    (Return tt,
     {| self := self s;
        objs := <[trace := {| name := Some v;
                              legendgroup := legendgroup t |}]> (objs s) |}).

(** [trace.legendgroup = v] *)
Definition assign_legendgroup (trace : loc) (v : string) : Py unit :=
  fun s =>
    let t := objs s trace in
    (Return tt,
     {| self := self s;
        objs := <[trace := {| name := name t;
                              legendgroup := Some v |}]> (objs s) |}).

(** [for x in xs: body(x)] *)
Fixpoint for_each {A : Type} (xs : list A) (body : A -> Py unit) : Py unit :=
  match xs with
  | [] => mret tt
  | x :: rest => body x ;; for_each rest body
  end.

(** ** [TraceNamer.set_name] (lines 37-61) *)

Section SetName.
Context {Source : Type} `{SourceOps Source}.

Definition set_name (traces : list loc) (array : Source) : Py unit :=
  match traces with
  | [] => mret tt
  | _ :: _ =>
      nm ← (if is_visualizable array then mret (type_name array)
            else if is_array array then mret "points"
            else raise (TypeError ("Unexpected trace " ++ type_repr array)));
      curr_id ← next_count nm;
      for_each traces (fun trace =>
        n ← get_name trace;
        (if negb (truthy n)
         then assign_name trace (fmt_name_id nm curr_id)
         else mret tt);;
        assign_legendgroup trace (fmt_name_id nm curr_id))
  end.

(** The value bound to [name] by lines 46-49, [None] where line 51
    raises instead. *)
Definition category (array : Source) : option string :=
  if is_visualizable array then Some (type_name array)
  else if is_array array then Some "points"
  else None.

(** A call, as the caller writes it: [namer.set_name(traces, array)]. *)
Definition call : Type := list loc * Source.

(** Successive calls on one instance.  An exception raised by a call
    is caught by the caller; the store it leaves is the one the next
    call starts from. *)
Definition run_calls (cs : list call) (s : Store) : Store :=
  fold_left (fun st c => snd (set_name (fst c) (snd c) st)) cs s.

(** Does the call reach line 53 with [name == cat]? *)
Definition resolves_to (cat : string) (c : call) : bool :=
  match fst c with
  | [] => false
  | _ :: _ => bool_decide (category (snd c) = Some cat)
  end.

(** Number of calls in [cs] that reach line 53 with [name == cat]. *)
Definition calls_for (cat : string) (cs : list call) : nat :=
  length (List.filter (resolves_to cat) cs).

(** The legend group each call of [cs] resolving to [cat] leaves on
    the first trace it was given, in call order. *)
Fixpoint stamped (cat : string) (cs : list call) (s : Store)
  : list (option string) :=
  match cs with
  | [] => []
  | c :: rest =>
      let s' := snd (set_name (fst c) (snd c) s) in
      match fst c with
      | t :: _ =>
          if resolves_to cat c
          then legendgroup (objs s' t) :: stamped cat rest s'
          else stamped cat rest s'
      | [] => stamped cat rest s'
      end
  end.
End SetName.

(** The value [next(self.name_to_count[cat])] would return now. *)
Definition next_id (s : Store) (cat : string) : nat :=
  default 0 (name_to_count (self s) !! cat).

(** ** Concrete source objects and stores used in the examples *)

(** [Ray] and [Camera] are visualizable classes, [NdArray] a plain
    numpy array, [PyInt] an int, and [ArrayView] an [ndarray] subclass
    that also implements the visualizable interface. *)
Inductive PyObj : Type := Ray | Camera | NdArray | PyInt | ArrayView.

#[global] Instance PyObj_ops : SourceOps PyObj := {|
  is_visualizable o :=
    match o with Ray | Camera | ArrayView => true | _ => false end;
  is_array o :=
    match o with NdArray | ArrayView => true | _ => false end;
  type_name o :=
    match o with
    | Ray => "Ray" | Camera => "Camera" | NdArray => "ndarray"
    | PyInt => "int" | ArrayView => "ArrayView"
    end;
  type_repr o :=
    match o with
    | Ray => "<class 'visu3d.Ray'>"
    | Camera => "<class 'visu3d.Camera'>"
    | NdArray => "<class 'numpy.ndarray'>"
    | PyInt => "<class 'int'>"
    | ArrayView => "<class 'ArrayView'>"
    end
|}.

(** Freshly built traces: nothing set. *)
Definition blank : Trace := {| name := None; legendgroup := None |}.

(** A store with a new [TraceNamer] and only blank traces. *)
Definition store0 : Store :=
  {| self := new_TraceNamer; objs := fun _ => blank |}.

(** As [store0], but trace 0 was named ["custom"] by the caller and
    carries an old legend group, and trace 2 has the empty name. *)
Definition store1 : Store :=
  {| self := new_TraceNamer;
     objs := <[0 := {| name := Some "custom"; legendgroup := Some "old" |}]>
             (<[2 := {| name := Some ""; legendgroup := None |}]>
              (fun _ => blank)) |}.

(** What one pass of the loop body (lines 58-61) leaves in a trace. *)
Definition stamp (lbl : string) (t : Trace) : Trace :=
  {| name := if truthy (name t) then name t else Some lbl;
     legendgroup := Some lbl |}.

(** No blank occurs in the string. *)
Fixpoint spaceless (s : string) : bool :=
  match s with
  | EmptyString => true
  | String c rest => negb (Ascii.eqb c " ") && spaceless rest
  end.

(** Does the call reach line 53 at all, that is, with a non-empty list
    and a source that lines 46-49 can name? *)
Definition resolves {Source : Type} `{SourceOps Source} (c : call) : bool :=
  match fst c, category (snd c) with
  | _ :: _, Some _ => true
  | _, _ => false
  end.

(** The labels composed by the calls of [cs] that reach the loop with
    trace [l] in their list, in call order. *)
Fixpoint labels_for {Source : Type} `{SourceOps Source}
         (l : loc) (cs : list call) (s : Store) : list string :=
  match cs with
  | [] => []
  | c :: rest =>
      let s' := snd (set_name (fst c) (snd c) s) in
      match category (snd c) with
      | Some cat =>
          if bool_decide (l ∈ fst c)
          then fmt_name_id cat (next_id s cat) :: labels_for l rest s'
          else labels_for l rest s'
      | None => labels_for l rest s'
      end
  end.

(** Every legend group present in the store is a label whose id the
    counter of its category has already passed. *)
Definition issued (s : Store) : Prop :=
  forall l g, legendgroup (objs s l) = Some g ->
    exists cat k, g = fmt_name_id cat k /\ k < next_id s cat.

(** * Properties *)

(** ** Strings *)

Lemma spaceless_digits (d : Decimal.uint) :
  spaceless (NilEmpty.string_of_uint d) = true.
Proof. induction d; cbn; auto. Qed.

Lemma str_int_spaceless (k : nat) : spaceless (str_int k) = true.
Proof.
  unfold str_int, NilZero.string_of_uint.
  destruct (Nat.to_uint k); try apply spaceless_digits. reflexivity.
Qed.

Lemma str_int_inj (k k' : nat) : str_int k = str_int k' -> k = k'.
Proof.
  intros E. apply DecimalNat.Unsigned.to_uint_inj.
  assert (forall n, Nat.to_uint n <> Decimal.Nil) as Hnn.
  { intros n. rewrite <- (DecimalNat.Unsigned.of_to n) at 1.
    rewrite DecimalNat.Unsigned.to_of. apply DecimalFacts.unorm_nonnil. }
  unfold str_int in E.
  apply (f_equal NilZero.uint_of_string) in E.
  rewrite !NilZero.usu in E by apply Hnn.
  congruence.
Qed.

Lemma blank_not_spaceless (a b : string) : spaceless (a ++ " " ++ b) = false.
Proof.
  induction a as [|c a IH]; [reflexivity|].
  change (spaceless (String c a ++ " " ++ b))
    with (negb (Ascii.eqb c " ") && spaceless (a ++ " " ++ b)).
  rewrite IH. apply andb_false_r.
Qed.

(** A label splits at its last blank in one way only. *)
Lemma split_last_blank (a b d d' : string) :
  spaceless d = true -> spaceless d' = true ->
  a ++ " " ++ d = b ++ " " ++ d' -> a = b /\ d = d'.
Proof.
  intros Hd Hd'. revert b.
  induction a as [|c a IH]; intros [|c' b] E.
  - change (String " " d = String " " d') in E.
    injection E as E. split; [reflexivity | exact E].
  - change (String " " d = String c' (b ++ " " ++ d')) in E.
    injection E as _ E. rewrite E, blank_not_spaceless in Hd. discriminate.
  - change (String c (a ++ " " ++ d) = String " " d') in E.
    injection E as _ E. rewrite <- E, blank_not_spaceless in Hd'. discriminate.
  - change (String c (a ++ " " ++ d) = String c' (b ++ " " ++ d')) in E.
    injection E as -> E. destruct (IH b E) as [-> ->]. split; reflexivity.
Qed.

(** Distinct categories or distinct ids give distinct labels. *)
Lemma fmt_name_id_inj (a b : string) (k k' : nat) :
  fmt_name_id a k = fmt_name_id b k' -> a = b /\ k = k'.
Proof.
  unfold fmt_name_id. intros E.
  apply split_last_blank in E; try apply str_int_spaceless.
  destruct E as [-> E]. split; [reflexivity | now apply str_int_inj].
Qed.

Lemma fmt_name_id_truthy (nm : string) (k : nat) :
  truthy (Some (fmt_name_id nm k)) = true.
Proof. unfold fmt_name_id. destruct nm; reflexivity. Qed.

Lemma stamp_idem (nm : string) (k : nat) (t : Trace) :
  stamp (fmt_name_id nm k) (stamp (fmt_name_id nm k) t)
  = stamp (fmt_name_id nm k) t.
Proof.
  unfold stamp; cbn [name legendgroup].
  destruct (truthy (name t)) eqn:E.
  - now rewrite E.
  - now rewrite fmt_name_id_truthy.
Qed.

(** ** The loop *)

Section Loop.
Variables (nm : string) (curr_id : nat).

Let body : loc -> Py unit := fun trace =>
  n ← get_name trace;
  (if negb (truthy n)
   then assign_name trace (fmt_name_id nm curr_id)
   else mret tt);;
  assign_legendgroup trace (fmt_name_id nm curr_id).

Lemma body_spec (x : loc) (s : Store) :
  exists s1,
    body x s = (Return tt, s1)
    /\ self s1 = self s
    /\ forall l, objs s1 l =
                 if decide (x = l)
                 then stamp (fmt_name_id nm curr_id) (objs s x)
                 else objs s l.
Proof.
  unfold body, mbind, Py_bind, get_name, stamp.
  destruct (truthy (name (objs s x))) eqn:E; cbn [negb];
    unfold assign_name, assign_legendgroup, mret, Py_ret;
    cbn [self objs];
    eexists; (split; [reflexivity|]); (split; [reflexivity|]);
    intros l; cbn [self objs]; unfold insert, fn_insert;
    destruct (decide (x = l)) as [->|Hne]; cbn [name legendgroup];
    try reflexivity.
  destruct (decide (l = l)); [reflexivity | congruence].
Qed.

Lemma for_each_spec (traces : list loc) (s : Store) :
  exists s',
    for_each traces body s = (Return tt, s')
    /\ self s' = self s
    /\ forall l, objs s' l =
                 if bool_decide (l ∈ traces)
                 then stamp (fmt_name_id nm curr_id) (objs s l)
                 else objs s l.
Proof.
  revert s. induction traces as [|x rest IH]; intros s.
  - exists s. split; [reflexivity|]. split; [reflexivity|]. intros l.
    rewrite bool_decide_eq_false_2; [reflexivity | apply not_elem_of_nil].
  - destruct (body_spec x s) as (s1 & E1 & Hself1 & Hobjs1).
    destruct (IH s1) as (s' & E' & Hself' & Hobjs').
    exists s'. split; [|split].
    + simpl. unfold mbind, Py_bind at 1. rewrite E1. exact E'.
    + congruence.
    + intros l. rewrite Hobjs', !Hobjs1.
      destruct (decide (x = l)) as [->|Hne].
      * rewrite (bool_decide_eq_true_2 (l ∈ l :: rest)) by apply list_elem_of_here.
        destruct (bool_decide (l ∈ rest)); [apply stamp_idem | reflexivity].
      * assert (bool_decide (l ∈ x :: rest) = bool_decide (l ∈ rest)) as ->.
        { apply bool_decide_ext. rewrite elem_of_cons.
          split; [intros [?|?]; [congruence | assumption] | now right]. }
        reflexivity.
Qed.
End Loop.

(** ** One call *)

Section Call.
Context {Source : Type} `{SourceOps Source}.

(** Line 43-44: nothing happens on an empty list. *)
Lemma set_name_nil (array : Source) (s : Store) :
  set_name [] array s = (Return tt, s).
Proof. reflexivity. Qed.

(** Line 51: the only [raise], reached before anything is written. *)
Lemma set_name_raise (traces : list loc) (array : Source) (s : Store) :
  traces <> [] -> category array = None ->
  set_name traces array s
  = (Raise (TypeError ("Unexpected trace " ++ type_repr array)), s).
Proof.
  intros Hne Hcat. unfold category in Hcat.
  destruct traces as [|t rest]; [congruence|].
  unfold set_name, mbind, Py_bind.
  destruct (is_visualizable array); [discriminate|].
  destruct (is_array array); [discriminate|].
  reflexivity.
Qed.

(** Lines 53-61: the counter of the resolved category advances by one
    and every listed trace is stamped with the same label. *)
Lemma set_name_return (traces : list loc) (array : Source) (s : Store)
      (cat : string) :
  traces <> [] -> category array = Some cat ->
  exists s',
    set_name traces array s = (Return tt, s')
    /\ name_to_count (self s')
       = <[cat := S (next_id s cat)]> (name_to_count (self s))
    /\ forall l, objs s' l =
                 if bool_decide (l ∈ traces)
                 then stamp (fmt_name_id cat (next_id s cat)) (objs s l)
                 else objs s l.
Proof.
  intros Hne Hcat.
  set (s1 := {| self := {| name_to_count :=
                             <[cat := S (next_id s cat)]>
                               (name_to_count (self s)) |};
                objs := objs s |}).
  destruct (for_each_spec cat (next_id s cat) traces s1)
    as (s' & E & Hself & Hobjs).
  exists s'. split; [|split].
  - destruct traces as [|t rest]; [congruence|].
    unfold category in Hcat.
    unfold set_name, mbind, Py_bind at 1 2.
    destruct (is_visualizable array).
    + injection Hcat as <-. exact E.
    + destruct (is_array array); [|discriminate].
      injection Hcat as <-. exact E.
  - rewrite Hself. reflexivity.
  - exact Hobjs.
Qed.

(** Every call falls in exactly one of the three cases above. *)
Lemma set_name_cases (traces : list loc) (array : Source) (s : Store) :
  (traces = [] /\ set_name traces array s = (Return tt, s))
  \/ (traces <> [] /\ category array = None
      /\ set_name traces array s
         = (Raise (TypeError ("Unexpected trace " ++ type_repr array)), s))
  \/ (traces <> [] /\ exists cat s',
        category array = Some cat
        /\ set_name traces array s = (Return tt, s')
        /\ name_to_count (self s')
           = <[cat := S (next_id s cat)]> (name_to_count (self s))
        /\ forall l, objs s' l =
                     if bool_decide (l ∈ traces)
                     then stamp (fmt_name_id cat (next_id s cat)) (objs s l)
                     else objs s l).
Proof.
  destruct traces as [|t rest]; [left; split; reflexivity|].
  right. assert (t :: rest <> []) as Hne by discriminate.
  destruct (category array) as [cat|] eqn:Hcat.
  - right. split; [exact Hne|].
    destruct (set_name_return (t :: rest) array s cat Hne Hcat)
      as (s' & E & Hcount & Hobjs).
    exists cat, s'. auto.
  - left. split; [exact Hne|]. split; [reflexivity|].
    now apply set_name_raise.
Qed.
End Call.

(** ** Successive calls on one instance *)

Section History.
Context {Source : Type} `{SourceOps Source}.

(** A call moves the next id of [cat] by one when it resolves to
    [cat], and not at all otherwise (other category, empty list, or
    exception). *)
Lemma next_id_set_name (cat : string) (traces : list loc) (array : Source)
      (s : Store) :
  next_id (snd (set_name traces array s)) cat
  = next_id s cat + (if resolves_to cat (traces, array) then 1 else 0).
Proof.
  unfold resolves_to; cbn [fst snd].
  destruct (set_name_cases traces array s)
    as [[-> E] | [(Hne & Hcat & E) | (Hne & c & s' & Hcat & E & Hcount & _)]];
    rewrite E; cbn [snd].
  - lia.
  - destruct traces; [congruence|]. rewrite Hcat.
    rewrite bool_decide_eq_false_2 by discriminate. lia.
  - destruct traces; [congruence|]. rewrite Hcat.
    unfold next_id at 1. rewrite Hcount.
    destruct (decide (c = cat)) as [->|Hc].
    + rewrite lookup_insert_eq, bool_decide_eq_true_2 by reflexivity.
      simpl. lia.
    + rewrite lookup_insert_ne by exact Hc.
      rewrite bool_decide_eq_false_2 by congruence.
      unfold next_id. lia.
Qed.

Lemma next_id_run_calls (cat : string) (cs : list call) (s : Store) :
  next_id (run_calls cs s) cat = next_id s cat + calls_for cat cs.
Proof.
  unfold run_calls, calls_for. revert s.
  induction cs as [|[traces array] cs IH]; intros s; cbn [fold_left List.filter].
  - cbn [length]. lia.
  - rewrite IH. cbn [fst snd]. rewrite next_id_set_name.
    destruct (resolves_to cat (traces, array)); cbn [length]; lia.
Qed.

Lemma next_id_new (cat : string) (h : loc -> Trace) :
  next_id {| self := new_TraceNamer; objs := h |} cat = 0.
Proof. reflexivity. Qed.

Lemma stamped_from (cat : string) (cs : list call) (s : Store) :
  stamped cat cs s
  = map (fun k => Some (fmt_name_id cat k))
        (seq (next_id s cat) (calls_for cat cs)).
Proof.
  revert s. induction cs as [|[traces array] cs IH]; intros s.
  - reflexivity.
  - cbn [stamped fst snd]. unfold calls_for. cbn [List.filter].
    pose proof (next_id_set_name cat traces array s) as Hnext.
    rewrite !IH, Hnext. clear IH Hnext.
    fold (calls_for cat cs).
    destruct traces as [|t rest].
    + unfold resolves_to; cbn [fst]. rewrite Nat.add_0_r. reflexivity.
    + destruct (resolves_to cat (t :: rest, array)) eqn:R.
      * unfold resolves_to in R; cbn [fst snd] in R.
        apply bool_decide_eq_true_1 in R.
        destruct (set_name_return (t :: rest) array s cat) as (s' & E & _ & Hobjs);
          [discriminate | exact R |].
        rewrite E; cbn [snd]. rewrite Hobjs.
        rewrite bool_decide_eq_true_2 by apply list_elem_of_here.
        cbn [stamp legendgroup length seq map].
        rewrite Nat.add_1_r. reflexivity.
      * rewrite Nat.add_0_r. reflexivity.
Qed.
End History.

(** * The specification's claims *)

Section Claims.
Context {Source : Type} `{SourceOps Source}.

(** C1: in a call that returns normally on a non-empty list, the
    source resolves to a category [cat], and with [k] the id drawn for
    [cat]: every listed trace whose name was empty or unset ends with
    the name ["{cat} {k}"], and every listed trace whose name was
    non-empty keeps the name it had. *)
Theorem set_name_names_unnamed_only
        (traces : list loc) (array : Source) (s s' : Store) :
  traces <> [] ->
  set_name traces array s = (Return tt, s') ->
  exists cat,
    category array = Some cat
    /\ forall l, l ∈ traces ->
         (truthy (name (objs s l)) = false ->
          name (objs s' l) = Some (fmt_name_id cat (next_id s cat)))
         /\ (truthy (name (objs s l)) = true ->
             name (objs s' l) = name (objs s l)).
Proof.
  intros Hne E.
  destruct (set_name_cases traces array s)
    as [[-> _] | [(_ & _ & E') | (_ & cat & s1 & Hcat & E' & _ & Hobjs)]];
    [congruence | congruence |].
  assert (s1 = s') as -> by congruence.
  exists cat. split; [exact Hcat|]. intros l Hl.
  rewrite Hobjs, bool_decide_eq_true_2 by exact Hl.
  unfold stamp; cbn [name].
  split; intros ->; reflexivity.
Qed.

(** C2: after any sequence [cs] of earlier calls on a new
    [TraceNamer], a call with a non-empty list and a visualizable
    source of type [T] returns normally and leaves the legend group of
    every listed trace equal to ["{T} {k}"], where [k] is the number
    of calls in [cs] that resolved to [T]; what the legend groups held
    before plays no part. *)
Theorem set_name_legendgroup_visualizable
        (cs : list call) (h : loc -> Trace)
        (traces : list loc) (array : Source) :
  traces <> [] ->
  is_visualizable array = true ->
  exists s',
    set_name traces array
             (run_calls cs {| self := new_TraceNamer; objs := h |})
    = (Return tt, s')
    /\ forall l, l ∈ traces ->
         legendgroup (objs s' l)
         = Some (fmt_name_id (type_name array)
                             (calls_for (type_name array) cs)).
Proof.
  intros Hne Hvis.
  assert (category array = Some (type_name array)) as Hcat
      by (unfold category; now rewrite Hvis).
  destruct (set_name_return traces array
              (run_calls cs {| self := new_TraceNamer; objs := h |})
              (type_name array) Hne Hcat) as (s' & E & _ & Hobjs).
  exists s'. split; [exact E|]. intros l Hl.
  rewrite Hobjs, bool_decide_eq_true_2 by exact Hl.
  rewrite next_id_run_calls, next_id_new. reflexivity.
Qed.

(** C3: on a new [TraceNamer], the calls of any sequence [cs] that
    resolve to [cat] stamp, in call order, the labels ["{cat} 0"],
    ["{cat} 1"], ["{cat} 2"], ...: the ids start at 0 and go up by one
    with no gap, whatever other calls are interleaved; and a single
    call moves the next id of [cat] by one when it resolves to [cat]
    and leaves it as it was when it does not. *)
Theorem ids_per_category_count_up
        (cat : string) (cs : list call) (h : loc -> Trace) :
  stamped cat cs {| self := new_TraceNamer; objs := h |}
  = map (fun k => Some (fmt_name_id cat k)) (seq 0 (calls_for cat cs))
  /\ forall (traces : list loc) (array : Source) (s : Store),
       next_id (snd (set_name traces array s)) cat
       = if resolves_to cat (traces, array)
         then S (next_id s cat)
         else next_id s cat.
Proof.
  split.
  - rewrite stamped_from, next_id_new. reflexivity.
  - intros traces array s. rewrite next_id_set_name.
    destruct (resolves_to cat (traces, array)); lia.
Qed.

(** C4: a call raises exactly when the list is non-empty and the
    source is neither visualizable nor an array; what it raises is
    then the [TypeError] whose message ends with the source's type,
    and nothing else is ever raised. *)
Theorem set_name_raises_iff
        (traces : list loc) (array : Source) (s : Store) (e : exn) :
  fst (set_name traces array s) = Raise e
  <-> traces <> []
      /\ is_visualizable array = false
      /\ is_array array = false
      /\ e = TypeError ("Unexpected trace " ++ type_repr array).
Proof.
  split.
  - intros E.
    destruct (set_name_cases traces array s)
      as [[_ E'] | [(Hne & Hcat & E') | (_ & cat & s1 & _ & E' & _)]];
      rewrite E' in E; cbn [fst] in E; try discriminate.
    injection E as <-. split; [exact Hne|].
    unfold category in Hcat.
    destruct (is_visualizable array); [discriminate|].
    destruct (is_array array); [discriminate|].
    repeat split.
  - intros (Hne & Hvis & Harr & ->).
    rewrite set_name_raise; [reflexivity | exact Hne |].
    unfold category. now rewrite Hvis, Harr.
Qed.

(** C5: when a call raises, the store it leaves is the store it
    started from: no counter of [name_to_count] has moved and no
    trace has a different name or legend group. *)
Theorem set_name_raise_leaves_store
        (traces : list loc) (array : Source) (s s' : Store) (e : exn) :
  set_name traces array s = (Raise e, s') ->
  s' = s
  /\ name_to_count (self s') = name_to_count (self s)
  /\ forall l, name (objs s' l) = name (objs s l)
               /\ legendgroup (objs s' l) = legendgroup (objs s l).
Proof.
  intros E.
  destruct (set_name_cases traces array s)
    as [[_ E'] | [(_ & _ & E') | (_ & cat & s1 & _ & E' & _)]];
    rewrite E' in E; try discriminate.
  injection E as _ <-. repeat split.
Qed.

(** C6: on an empty list the call returns at once, whatever the
    source is: nothing is raised, even for a source that could not be
    classified, and the store, counters included, is untouched. *)
Theorem set_name_empty_is_noop (array : Source) (s : Store) :
  set_name [] array s = (Return tt, s).
Proof. unfold set_name. reflexivity. Qed.

(** C8: a call with a non-empty list and a source that is an array
    but not visualizable returns normally with the category
    ["points"]: it is the counter of ["points"] that advances, and the
    label put on the traces is ["points {id}"]. *)
Theorem set_name_array_is_points
        (traces : list loc) (array : Source) (s : Store) :
  traces <> [] ->
  is_visualizable array = false ->
  is_array array = true ->
  exists s',
    set_name traces array s = (Return tt, s')
    /\ category array = Some "points"
    /\ name_to_count (self s')
       = <["points" := S (next_id s "points")]> (name_to_count (self s))
    /\ forall l, l ∈ traces ->
         legendgroup (objs s' l)
         = Some ("points " ++ str_int (next_id s "points"))
         /\ (truthy (name (objs s l)) = false ->
             name (objs s' l)
             = Some ("points " ++ str_int (next_id s "points"))).
Proof.
  intros Hne Hvis Harr.
  assert (category array = Some "points") as Hcat
      by (unfold category; now rewrite Hvis, Harr).
  destruct (set_name_return traces array s "points" Hne Hcat)
    as (s' & E & Hcount & Hobjs).
  exists s'. repeat (split; [assumption|]). intros l Hl.
  rewrite Hobjs, bool_decide_eq_true_2 by exact Hl.
  unfold stamp; cbn [name legendgroup].
  split; [reflexivity | intros ->; reflexivity].
Qed.

(** C9: a call with a non-empty list and a source that is both
    visualizable and an array returns normally, and the category is
    the source's type name: that name's counter advances and its label
    is put on the traces.  When the type name is not ["points"], the
    counter of ["points"] stays where it was and no trace carries a
    ["points {id}"] legend group. *)
Theorem set_name_visualizable_first
        (traces : list loc) (array : Source) (s : Store) :
  traces <> [] ->
  is_visualizable array = true ->
  is_array array = true ->
  exists s',
    set_name traces array s = (Return tt, s')
    /\ category array = Some (type_name array)
    /\ next_id s' (type_name array) = S (next_id s (type_name array))
    /\ (forall l, l ∈ traces ->
          legendgroup (objs s' l)
          = Some (fmt_name_id (type_name array)
                              (next_id s (type_name array))))
    /\ (type_name array <> "points" ->
        next_id s' "points" = next_id s "points"
        /\ forall l k, l ∈ traces ->
             legendgroup (objs s' l) <> Some (fmt_name_id "points" k)).
Proof.
  intros Hne Hvis _.
  assert (category array = Some (type_name array)) as Hcat
      by (unfold category; now rewrite Hvis).
  destruct (set_name_return traces array s (type_name array) Hne Hcat)
    as (s' & E & Hcount & Hobjs).
  assert (forall l, l ∈ traces ->
            legendgroup (objs s' l)
            = Some (fmt_name_id (type_name array)
                                (next_id s (type_name array)))) as Hgrp.
  { intros l Hl. now rewrite Hobjs, bool_decide_eq_true_2 by exact Hl. }
  exists s'. split; [exact E|]. split; [exact Hcat|]. split; [|split].
  - unfold next_id at 1. rewrite Hcount, lookup_insert_eq. reflexivity.
  - exact Hgrp.
  - intros Hpts. split.
    + unfold next_id at 1. rewrite Hcount, lookup_insert_ne by exact Hpts.
      reflexivity.
    + intros l k Hl Eq. rewrite (Hgrp l Hl) in Eq.
      injection Eq as Eq. apply fmt_name_id_inj in Eq. tauto.
Qed.

(** C10: a call that returns normally on a non-empty list advances
    the counter of the category it resolved to by exactly one and
    moves no other counter.  This is so even when every listed trace
    already has a non-empty name: then no name of any trace changes,
    and the id that was drawn shows in the legend group of every
    listed trace. *)
Theorem set_name_always_draws_an_id
        (traces : list loc) (array : Source) (s : Store) (cat : string) :
  traces <> [] ->
  category array = Some cat ->
  exists s',
    set_name traces array s = (Return tt, s')
    /\ next_id s' cat = S (next_id s cat)
    /\ (forall other, other <> cat -> next_id s' other = next_id s other)
    /\ ((forall l, l ∈ traces -> truthy (name (objs s l)) = true) ->
        (forall l, name (objs s' l) = name (objs s l))
        /\ forall l, l ∈ traces ->
             legendgroup (objs s' l)
             = Some (fmt_name_id cat (next_id s cat))).
Proof.
  intros Hne Hcat.
  destruct (set_name_return traces array s cat Hne Hcat)
    as (s' & E & Hcount & Hobjs).
  exists s'. split; [exact E|]. split; [|split].
  - unfold next_id at 1. rewrite Hcount, lookup_insert_eq. reflexivity.
  - intros other Hother. unfold next_id at 1.
    rewrite Hcount, lookup_insert_ne by congruence. reflexivity.
  - intros Hnamed. split.
    + intros l. rewrite Hobjs.
      destruct (bool_decide (l ∈ traces)) eqn:D; [|reflexivity].
      apply bool_decide_eq_true_1 in D.
      unfold stamp; cbn [name]. now rewrite (Hnamed l D).
    + intros l Hl. now rewrite Hobjs, bool_decide_eq_true_2 by exact Hl.
Qed.
End Claims.

(** ** The claims at concrete calls *)

Lemma set_name_names_unnamed_only_witness :
  [0; 1; 2] <> []
  /\ set_name [0; 1; 2] NdArray store1
     = (Return tt, snd (set_name [0; 1; 2] NdArray store1))
  /\ exists cat,
       category NdArray = Some cat
       /\ forall l, l ∈ [0; 1; 2] ->
            (truthy (name (objs store1 l)) = false ->
             name (objs (snd (set_name [0; 1; 2] NdArray store1)) l)
             = Some (fmt_name_id cat (next_id store1 cat)))
            /\ (truthy (name (objs store1 l)) = true ->
                name (objs (snd (set_name [0; 1; 2] NdArray store1)) l)
                = name (objs store1 l)).
Proof.
  split; [discriminate|]. split; [reflexivity|].
  exact (set_name_names_unnamed_only
           [0; 1; 2] NdArray store1
           (snd (set_name [0; 1; 2] NdArray store1))
           ltac:(discriminate) eq_refl).
Defined.

Lemma set_name_legendgroup_visualizable_witness :
  [4; 5] <> []
  /\ is_visualizable Ray = true
  /\ exists s',
       set_name [4; 5] Ray
                (run_calls [([0], Ray); ([1], Camera); ([], Ray); ([2; 3], Ray)]
                           {| self := new_TraceNamer; objs := fun _ => blank |})
       = (Return tt, s')
       /\ forall l, l ∈ [4; 5] -> legendgroup (objs s' l) = Some "Ray 2".
Proof.
  split; [discriminate|]. split; [reflexivity|].
  exact (set_name_legendgroup_visualizable
           [([0], Ray); ([1], Camera); ([], Ray); ([2; 3], Ray)]
           (fun _ => blank) [4; 5] Ray
           ltac:(discriminate) eq_refl).
Defined.

Lemma set_name_raise_leaves_store_witness :
  set_name [0; 1] PyInt store1
  = (Raise (TypeError "Unexpected trace <class 'int'>"), store1)
  /\ store1 = store1
  /\ name_to_count (self store1) = name_to_count (self store1)
  /\ forall l, name (objs store1 l) = name (objs store1 l)
               /\ legendgroup (objs store1 l) = legendgroup (objs store1 l).
Proof.
  split; [reflexivity|].
  exact (set_name_raise_leaves_store
           [0; 1] PyInt store1 store1
           (TypeError "Unexpected trace <class 'int'>") eq_refl).
Defined.

Lemma set_name_array_is_points_witness :
  [0; 2] <> []
  /\ is_visualizable NdArray = false
  /\ is_array NdArray = true
  /\ exists s',
       set_name [0; 2] NdArray store1 = (Return tt, s')
       /\ category NdArray = Some "points"
       /\ name_to_count (self s')
          = <["points" := 1]> (name_to_count (self store1))
       /\ forall l, l ∈ [0; 2] ->
            legendgroup (objs s' l) = Some "points 0"
            /\ (truthy (name (objs store1 l)) = false ->
                name (objs s' l) = Some "points 0").
Proof.
  split; [discriminate|]. split; [reflexivity|]. split; [reflexivity|].
  exact (set_name_array_is_points [0; 2] NdArray store1
           ltac:(discriminate) eq_refl eq_refl).
Defined.

Lemma set_name_visualizable_first_witness :
  [1] <> []
  /\ is_visualizable ArrayView = true
  /\ is_array ArrayView = true
  /\ exists s',
       set_name [1] ArrayView store0 = (Return tt, s')
       /\ category ArrayView = Some "ArrayView"
       /\ next_id s' "ArrayView" = 1
       /\ (forall l, l ∈ [1] -> legendgroup (objs s' l) = Some "ArrayView 0")
       /\ ("ArrayView" <> "points" ->
           next_id s' "points" = 0
           /\ forall l k, l ∈ [1] ->
                legendgroup (objs s' l) <> Some (fmt_name_id "points" k)).
Proof.
  split; [discriminate|]. split; [reflexivity|]. split; [reflexivity|].
  exact (set_name_visualizable_first [1] ArrayView store0
           ltac:(discriminate) eq_refl eq_refl).
Defined.

Lemma set_name_always_draws_an_id_witness :
  [0] <> []
  /\ category Ray = Some "Ray"
  /\ exists s',
       set_name [0] Ray store1 = (Return tt, s')
       /\ next_id s' "Ray" = 1
       /\ (forall other, other <> "Ray" ->
             next_id s' other = next_id store1 other)
       /\ ((forall l, l ∈ [0] -> truthy (name (objs store1 l)) = true) ->
           (forall l, name (objs s' l) = name (objs store1 l))
           /\ forall l, l ∈ [0] -> legendgroup (objs s' l) = Some "Ray 0").
Proof.
  split; [discriminate|]. split; [reflexivity|].
  exact (set_name_always_draws_an_id [0] Ray store1 "Ray"
           ltac:(discriminate) eq_refl).
Defined.

(** C7: the claim is that only the first trace with an empty name is
    named, later ones staying unnamed, which is also what the comment of
    line 55 announces.  The loop of lines 57-59 has no exit: with two
    blank traces in a first call for [Ray], the second trace is named
    ["Ray 0"] as well. *)
Theorem set_name_names_every_unnamed_trace :
  name (objs store0 0) = None
  /\ name (objs store0 1) = None
  /\ fst (set_name [0; 1] Ray store0) = Return tt
  /\ name (objs (snd (set_name [0; 1] Ray store0)) 0) = Some "Ray 0"
  /\ name (objs (snd (set_name [0; 1] Ray store0)) 1) = Some "Ray 0"
  /\ legendgroup (objs (snd (set_name [0; 1] Ray store0)) 0) = Some "Ray 0"
  /\ legendgroup (objs (snd (set_name [0; 1] Ray store0)) 1) = Some "Ray 0".
Proof. repeat split. Qed.

(** The ids shown in names may skip a value although the counter does
    not: three calls for [Ray] on traces 0, 1 and 2, where trace 1 was
    named by the caller, show ["Ray 0"], ["custom"] and ["Ray 2"]; id 1
    is only visible in the legend group of trace 1. *)
Example name_ids_may_skip :
  let s0 := {| self := new_TraceNamer;
               objs := <[1 := {| name := Some "custom";
                                 legendgroup := None |}]> (fun _ => blank) |} in
  let s3 := run_calls [([0], Ray); ([1], Ray); ([2], Ray)] s0 in
  map (fun l => name (objs s3 l)) [0; 1; 2]
  = [Some "Ray 0"; Some "custom"; Some "Ray 2"]
  /\ map (fun l => legendgroup (objs s3 l)) [0; 1; 2]
     = [Some "Ray 0"; Some "Ray 1"; Some "Ray 2"]
  /\ next_id s3 "Ray" = 3.
Proof. repeat split. Qed.

(** * Further properties of [set_name] *)

(** ** One call, in closed form *)

Section Closed.
Context {Source : Type} `{SourceOps Source}.

(** The outcome of a call (lines 43-51). *)
Lemma set_name_fst (traces : list loc) (array : Source) (s : Store) :
  fst (set_name traces array s)
  = match traces, category array with
    | _ :: _, None =>
        Raise (TypeError ("Unexpected trace " ++ type_repr array))
    | _, _ => Return tt
    end.
Proof.
  destruct (set_name_cases traces array s)
    as [[-> E] | [(Hne & Hcat & E) | (Hne & c & s' & Hcat & E & _)]];
    rewrite E; cbn [fst].
  - reflexivity.
  - rewrite Hcat. destruct traces; [congruence | reflexivity].
  - rewrite Hcat. destruct traces; reflexivity.
Qed.

(** The dictionary a call leaves (line 53). *)
Lemma set_name_self (traces : list loc) (array : Source) (s : Store) :
  name_to_count (self (snd (set_name traces array s)))
  = match traces, category array with
    | _ :: _, Some cat =>
        <[cat := S (next_id s cat)]> (name_to_count (self s))
    | _, _ => name_to_count (self s)
    end.
Proof.
  destruct (set_name_cases traces array s)
    as [[-> E] | [(Hne & Hcat & E) | (Hne & c & s' & Hcat & E & Hc & _)]];
    rewrite E; cbn [snd].
  - reflexivity.
  - rewrite Hcat. destruct traces; reflexivity.
  - rewrite Hcat, Hc. destruct traces; [congruence | reflexivity].
Qed.

(** The traces a call leaves (lines 57-61). *)
Lemma set_name_objs (traces : list loc) (array : Source) (s : Store)
      (l : loc) :
  objs (snd (set_name traces array s)) l
  = match category array with
    | Some cat =>
        if bool_decide (l ∈ traces)
        then stamp (fmt_name_id cat (next_id s cat)) (objs s l)
        else objs s l
    | None => objs s l
    end.
Proof.
  destruct (set_name_cases traces array s)
    as [[-> E] | [(Hne & Hcat & E) | (Hne & c & s' & Hcat & E & _ & Ho)]];
    rewrite E; cbn [snd].
  - rewrite bool_decide_eq_false_2 by apply not_elem_of_nil.
    destruct (category array); reflexivity.
  - rewrite Hcat. reflexivity.
  - rewrite Hcat. apply Ho.
Qed.

Lemma next_id_mono_set_name (cat : string) (traces : list loc)
      (array : Source) (s : Store) :
  next_id s cat <= next_id (snd (set_name traces array s)) cat.
Proof. rewrite next_id_set_name. lia. Qed.


Lemma run_calls_cons (c : call) (cs : list call) (s : Store) :
  run_calls (c :: cs) s = run_calls cs (snd (set_name (fst c) (snd c) s)).
Proof. reflexivity. Qed.

Lemma issued_set_name (traces : list loc) (array : Source) (s : Store) :
  issued s -> issued (snd (set_name traces array s)).
Proof.
  intros Hs l g. rewrite set_name_objs.
  pose proof (fun c => next_id_mono_set_name c traces array s) as Hmono.
  destruct (category array) as [cat|] eqn:Hcat.
  - destruct (bool_decide (l ∈ traces)) eqn:D.
    + apply bool_decide_eq_true_1 in D.
      cbn [stamp legendgroup]. intros [= <-].
      exists cat, (next_id s cat). split; [reflexivity|].
      rewrite next_id_set_name. unfold resolves_to; cbn [fst snd].
      destruct traces; [now apply not_elem_of_nil in D|].
      rewrite Hcat, bool_decide_eq_true_2 by reflexivity. lia.
    + intros Hg. destruct (Hs l g Hg) as (c & k & -> & Hk).
      exists c, k. split; [reflexivity|]. specialize (Hmono c). lia.
  - intros Hg. destruct (Hs l g Hg) as (c & k & -> & Hk).
    exists c, k. split; [reflexivity|]. specialize (Hmono c). lia.
Qed.

Lemma issued_run_calls (cs : list call) (s : Store) :
  issued s -> issued (run_calls cs s).
Proof.
  revert s. induction cs as [|c cs IH]; intros s Hs; [exact Hs|].
  rewrite run_calls_cons. apply IH, issued_set_name, Hs.
Qed.
End Closed.

(** ** What callers can rely on *)

Section Further.
Context {Source : Type} `{SourceOps Source}.

Lemma unresolved_is_noop (c : call) (s : Store) :
  resolves c = false -> snd (set_name (fst c) (snd c) s) = s.
Proof.
  unfold resolves. intros R.
  destruct (set_name_cases (fst c) (snd c) s)
    as [[_ E] | [(_ & _ & E) | (Hne & cat & s' & Hcat & _)]];
    try (rewrite E; reflexivity).
  rewrite Hcat in R. destruct (fst c); [congruence | discriminate].
Qed.

Lemma lookup_set_name (cat : string) (traces : list loc) (array : Source)
      (s : Store) :
  name_to_count (self (snd (set_name traces array s))) !! cat
  = if resolves_to cat (traces, array)
    then Some (S (next_id s cat))
    else name_to_count (self s) !! cat.
Proof.
  rewrite set_name_self. unfold resolves_to; cbn [fst snd].
  destruct traces as [|t rest]; [reflexivity|].
  destruct (category array) as [c|].
  - destruct (decide (c = cat)) as [->|Hc].
    + now rewrite bool_decide_eq_true_2, lookup_insert_eq by reflexivity.
    + rewrite bool_decide_eq_false_2 by congruence.
      now rewrite lookup_insert_ne by exact Hc.
  - now rewrite bool_decide_eq_false_2 by discriminate.
Qed.

Lemma lookup_run_calls (cat : string) (cs : list call) (s : Store) :
  name_to_count (self (run_calls cs s)) !! cat
  = match calls_for cat cs with
    | 0 => name_to_count (self s) !! cat
    | S n => Some (next_id s cat + S n)
    end.
Proof.
  revert s. induction cs as [|[traces array] cs IH]; intros s; [reflexivity|].
  rewrite run_calls_cons, IH. cbn [fst snd].
  unfold calls_for. cbn [List.filter]. fold (calls_for cat cs).
  rewrite lookup_set_name, next_id_set_name.
  destruct (resolves_to cat (traces, array)); cbn [length];
    fold (calls_for cat cs); destruct (calls_for cat cs);
    try reflexivity; f_equal; lia.
Qed.

(** X1: a trace that no call of a sequence lists comes out of the
    whole sequence exactly as it went in. *)
Theorem run_calls_frame (cs : list call) (s : Store) (l : loc) :
  (forall c, c ∈ cs -> l ∉ fst c) ->
  objs (run_calls cs s) l = objs s l.
Proof.
  revert s. induction cs as [|c cs IH]; intros s Hout; [reflexivity|].
  rewrite run_calls_cons, IH.
  - rewrite set_name_objs.
    rewrite bool_decide_eq_false_2 by (apply Hout, list_elem_of_here).
    destruct (category (snd c)); reflexivity.
  - intros c' Hc'. apply Hout. now apply list_elem_of_further.
Qed.

(** X2: labelling the same traces a second time changes no name
    anywhere, but moves the legend group of every listed trace to the
    label of the second call, which differs from the one the first call
    gave it. *)
Theorem set_name_again_keeps_names
        (traces : list loc) (a1 a2 : Source) (s : Store) (c1 c2 : string) :
  traces <> [] ->
  category a1 = Some c1 ->
  category a2 = Some c2 ->
  (forall l,
     name (objs (snd (set_name traces a2 (snd (set_name traces a1 s)))) l)
     = name (objs (snd (set_name traces a1 s)) l))
  /\ forall l, l ∈ traces ->
       legendgroup
         (objs (snd (set_name traces a2 (snd (set_name traces a1 s)))) l)
       = Some (fmt_name_id c2 (next_id (snd (set_name traces a1 s)) c2))
       /\ legendgroup
            (objs (snd (set_name traces a2 (snd (set_name traces a1 s)))) l)
          <> legendgroup (objs (snd (set_name traces a1 s)) l).
Proof.
  intros Hne H1 H2. split.
  - intros l. rewrite (set_name_objs traces a2), H2.
    destruct (bool_decide (l ∈ traces)) eqn:D; [|reflexivity].
    rewrite set_name_objs, H1, D.
    unfold stamp; cbn [name].
    destruct (truthy (name (objs s l))) eqn:T.
    + now rewrite T.
    + now rewrite fmt_name_id_truthy.
  - intros l Hl.
    rewrite (set_name_objs traces a2), H2, bool_decide_eq_true_2 by exact Hl.
    cbn [stamp legendgroup]. split; [reflexivity|].
    rewrite set_name_objs, H1, bool_decide_eq_true_2 by exact Hl.
    cbn [stamp legendgroup]. intros [= E].
    apply fmt_name_id_inj in E. destruct E as [<- E].
    rewrite next_id_set_name in E. unfold resolves_to in E; cbn [fst snd] in E.
    destruct traces; [congruence|].
    rewrite H1, bool_decide_eq_true_2 in E by congruence. lia.
Qed.


(** X4: after any sequence of calls on a new [TraceNamer], the
    dictionary has a key exactly for the categories some call resolved
    to, and the counter under it stands at the number of those calls. *)
Theorem name_to_count_after_calls
        (cat : string) (cs : list call) (h : loc -> Trace) :
  name_to_count (self (run_calls cs {| self := new_TraceNamer; objs := h |}))
  !! cat
  = match calls_for cat cs with
    | 0 => None
    | S n => Some (S n)
    end.
Proof.
  rewrite lookup_run_calls, next_id_new.
  destruct (calls_for cat cs); reflexivity.
Qed.

(** X5: a call that returns on a non-empty list leaves every listed
    trace with a non-empty name and a non-empty legend group, and the
    two are equal on each trace that had no name. *)
Theorem set_name_leaves_no_trace_unnamed
        (traces : list loc) (array : Source) (s s' : Store) (l : loc) :
  set_name traces array s = (Return tt, s') ->
  l ∈ traces ->
  truthy (name (objs s' l)) = true
  /\ truthy (legendgroup (objs s' l)) = true
  /\ (truthy (name (objs s l)) = false ->
      name (objs s' l) = legendgroup (objs s' l)).
Proof.
  intros E Hl.
  assert (s' = snd (set_name traces array s)) as -> by now rewrite E.
  pose proof (set_name_fst traces array s) as F. rewrite E in F. cbn [fst] in F.
  rewrite set_name_objs.
  destruct traces as [|t rest]; [now apply not_elem_of_nil in Hl|].
  destruct (category array) as [cat|]; [|discriminate].
  rewrite bool_decide_eq_true_2 by exact Hl.
  unfold stamp; cbn [name legendgroup].
  destruct (truthy (name (objs s l))) eqn:T.
  - rewrite T, fmt_name_id_truthy. repeat split. discriminate.
  - rewrite fmt_name_id_truthy. repeat split.
Qed.

(** X6: only the set of listed traces matters: two lists with the same
    members, in any order and with any repetitions, give the same
    outcome, the same dictionary and the same traces. *)
Theorem set_name_order_irrelevant
        (t1 t2 : list loc) (array : Source) (s : Store) :
  (forall l, l ∈ t1 <-> l ∈ t2) ->
  fst (set_name t1 array s) = fst (set_name t2 array s)
  /\ name_to_count (self (snd (set_name t1 array s)))
     = name_to_count (self (snd (set_name t2 array s)))
  /\ forall l, objs (snd (set_name t1 array s)) l
               = objs (snd (set_name t2 array s)) l.
Proof.
  intros Hsame.
  assert (match t1, t2 with
          | [], [] | _ :: _, _ :: _ => True
          | _, _ => False
          end) as Hshape.
  { destruct t1 as [|x t1], t2 as [|y t2]; try exact I.
    - apply (not_elem_of_nil y), Hsame, list_elem_of_here.
    - apply (not_elem_of_nil x), Hsame, list_elem_of_here. }
  split; [|split].
  - rewrite !set_name_fst. destruct t1, t2; tauto.
  - rewrite !set_name_self. destruct t1, t2; tauto.
  - intros l. rewrite !set_name_objs.
    now rewrite (bool_decide_ext _ _ (Hsame l)).
Qed.

(** X7: calls that return at line 44 or raise at line 51 can be
    struck from a sequence of calls without changing the store the
    sequence ends in. *)
Theorem run_calls_skips_unresolved (cs : list call) (s : Store) :
  run_calls (List.filter resolves cs) s = run_calls cs s.
Proof.
  revert s. induction cs as [|c cs IH]; intros s; [reflexivity|].
  cbn [List.filter]. destruct (resolves c) eqn:R.
  - rewrite !run_calls_cons. apply IH.
  - rewrite run_calls_cons, unresolved_is_noop by exact R. apply IH.
Qed.

(** X8: two calls of different categories on lists with no trace in
    common can be made in either order: the dictionary and every trace
    end up the same. *)
Theorem set_name_calls_commute
        (t1 t2 : list loc) (a1 a2 : Source) (c1 c2 : string) (s : Store) :
  category a1 = Some c1 ->
  category a2 = Some c2 ->
  c1 <> c2 ->
  (forall l, l ∈ t1 -> l ∉ t2) ->
  name_to_count (self (snd (set_name t2 a2 (snd (set_name t1 a1 s)))))
  = name_to_count (self (snd (set_name t1 a1 (snd (set_name t2 a2 s)))))
  /\ forall l,
       objs (snd (set_name t2 a2 (snd (set_name t1 a1 s)))) l
       = objs (snd (set_name t1 a1 (snd (set_name t2 a2 s)))) l.
Proof.
  intros H1 H2 Hc Hdis.
  assert (next_id (snd (set_name t1 a1 s)) c2 = next_id s c2) as N2.
  { rewrite next_id_set_name. unfold resolves_to; cbn [fst snd].
    destruct t1; [lia|]. rewrite H1, bool_decide_eq_false_2 by congruence. lia. }
  assert (next_id (snd (set_name t2 a2 s)) c1 = next_id s c1) as N1.
  { rewrite next_id_set_name. unfold resolves_to; cbn [fst snd].
    destruct t2; [lia|]. rewrite H2, bool_decide_eq_false_2 by congruence. lia. }
  split.
  - rewrite (set_name_self t2 a2), (set_name_self t1 a1 (snd _)).
    rewrite !set_name_self, H1, H2, N1, N2.
    destruct t1, t2; try reflexivity.
    apply insert_insert_ne. congruence.
  - intros l.
    rewrite (set_name_objs t2 a2), (set_name_objs t1 a1 (snd _)).
    rewrite !set_name_objs, H1, H2, N1, N2.
    destruct (bool_decide (l ∈ t1)) eqn:D1;
      destruct (bool_decide (l ∈ t2)) eqn:D2; try reflexivity.
    apply bool_decide_eq_true_1 in D1, D2. now destruct (Hdis l D1).
Qed.

(** X9: starting from a new [TraceNamer] and traces that carry no
    legend group, after any sequence of calls the traces that carry the
    label of one more call are exactly the traces listed in that call. *)
Theorem legendgroup_marks_the_call
        (cs : list call) (h : loc -> Trace)
        (traces : list loc) (array : Source) (cat : string) (l : loc) :
  (forall l', legendgroup (h l') = None) ->
  category array = Some cat ->
  legendgroup
    (objs (snd (set_name traces array
                  (run_calls cs {| self := new_TraceNamer; objs := h |}))) l)
  = Some (fmt_name_id cat (calls_for cat cs))
  <-> l ∈ traces.
Proof.
  intros Hnone Hcat.
  set (s := run_calls cs {| self := new_TraceNamer; objs := h |}).
  assert (issued s) as Hs.
  { apply issued_run_calls. intros l' g. cbn [objs]. now rewrite Hnone. }
  assert (next_id s cat = calls_for cat cs) as Hk
      by (unfold s; now rewrite next_id_run_calls, next_id_new).
  rewrite set_name_objs, Hcat, Hk.
  destruct (bool_decide (l ∈ traces)) eqn:D.
  - apply bool_decide_eq_true_1 in D. cbn [stamp legendgroup]. tauto.
  - apply bool_decide_eq_false_1 in D. split; [|tauto].
    intros Hg. destruct (Hs l _ Hg) as (c & k & E & Hlt).
    apply fmt_name_id_inj in E. destruct E as [<- <-]. lia.
Qed.
End Further.

(** ** The further properties at concrete calls *)

(** Closes [x ∉ [y1; ...; yn]] for distinct numerals. *)
Ltac not_listed :=
  let Hin := fresh "Hin" in
  intros Hin;
  repeat (apply elem_of_cons in Hin as [Hin|Hin]; [discriminate Hin|]);
  exact (not_elem_of_nil _ Hin).

Lemma run_calls_frame_witness :
  (forall c : call (Source := PyObj),
     c ∈ [([0; 1], Ray); ([], Camera); ([2], PyInt)] -> 3 ∉ fst c)
  /\ objs (run_calls [([0; 1], Ray); ([], Camera); ([2], PyInt)] store1) 3
     = objs store1 3.
Proof.
  assert (forall c : call (Source := PyObj),
            c ∈ [([0; 1], Ray); ([], Camera); ([2], PyInt)] -> 3 ∉ fst c)
    as Hout.
  { intros c Hc.
    repeat (apply elem_of_cons in Hc as [->|Hc]); cbn [fst];
      [not_listed | not_listed | not_listed |].
    now apply not_elem_of_nil in Hc. }
  split; [exact Hout|].
  exact (run_calls_frame
           [([0; 1], Ray); ([], Camera); ([2], PyInt)] store1 3 Hout).
Defined.

Lemma set_name_again_keeps_names_witness :
  [0; 1] <> []
  /\ category Ray = Some "Ray"
  /\ (forall l,
        name (objs (snd (set_name [0; 1] Ray
                           (snd (set_name [0; 1] Ray store1)))) l)
        = name (objs (snd (set_name [0; 1] Ray store1)) l))
  /\ forall l, l ∈ [0; 1] ->
       legendgroup
         (objs (snd (set_name [0; 1] Ray
                       (snd (set_name [0; 1] Ray store1)))) l)
       = Some "Ray 1"
       /\ legendgroup
            (objs (snd (set_name [0; 1] Ray
                          (snd (set_name [0; 1] Ray store1)))) l)
          <> legendgroup (objs (snd (set_name [0; 1] Ray store1)) l).
Proof.
  split; [discriminate|]. split; [reflexivity|].
  exact (set_name_again_keeps_names
           [0; 1] Ray Ray store1 "Ray" "Ray"
           ltac:(discriminate) eq_refl eq_refl).
Defined.


Lemma set_name_leaves_no_trace_unnamed_witness :
  set_name [0; 2] Ray store1 = (Return tt, snd (set_name [0; 2] Ray store1))
  /\ 2 ∈ [0; 2]
  /\ truthy (name (objs (snd (set_name [0; 2] Ray store1)) 2)) = true
  /\ truthy (legendgroup (objs (snd (set_name [0; 2] Ray store1)) 2)) = true
  /\ (truthy (name (objs store1 2)) = false ->
      name (objs (snd (set_name [0; 2] Ray store1)) 2)
      = legendgroup (objs (snd (set_name [0; 2] Ray store1)) 2)).
Proof.
  split; [reflexivity|].
  split; [apply list_elem_of_further, list_elem_of_here|].
  exact (set_name_leaves_no_trace_unnamed
           [0; 2] Ray store1 (snd (set_name [0; 2] Ray store1)) 2
           eq_refl
           (list_elem_of_further 2 0 [2] (list_elem_of_here 2 []))).
Defined.

Lemma set_name_order_irrelevant_witness :
  (forall l : loc, l ∈ [0; 1; 0] <-> l ∈ [1; 0])
  /\ fst (set_name [0; 1; 0] NdArray store1)
     = fst (set_name [1; 0] NdArray store1)
  /\ name_to_count (self (snd (set_name [0; 1; 0] NdArray store1)))
     = name_to_count (self (snd (set_name [1; 0] NdArray store1)))
  /\ forall l, objs (snd (set_name [0; 1; 0] NdArray store1)) l
               = objs (snd (set_name [1; 0] NdArray store1)) l.
Proof.
  assert (forall l : loc, l ∈ [0; 1; 0] <-> l ∈ [1; 0]) as Hsame
      by (intros l; rewrite !elem_of_cons, elem_of_nil; tauto).
  split; [exact Hsame|].
  exact (set_name_order_irrelevant [0; 1; 0] [1; 0] NdArray store1 Hsame).
Defined.

Lemma set_name_calls_commute_witness :
  category Ray = Some "Ray"
  /\ category NdArray = Some "points"
  /\ "Ray" <> "points"
  /\ (forall l : loc, l ∈ [0; 1] -> l ∉ [2])
  /\ name_to_count
       (self (snd (set_name [2] NdArray (snd (set_name [0; 1] Ray store1)))))
     = name_to_count
         (self (snd (set_name [0; 1] Ray (snd (set_name [2] NdArray store1)))))
  /\ forall l,
       objs (snd (set_name [2] NdArray (snd (set_name [0; 1] Ray store1)))) l
       = objs (snd (set_name [0; 1] Ray (snd (set_name [2] NdArray store1)))) l.
Proof.
  assert (forall l : loc, l ∈ [0; 1] -> l ∉ [2]) as Hdis.
  { intros l Hl.
    repeat (apply elem_of_cons in Hl as [->|Hl]); [not_listed | not_listed |].
    now apply not_elem_of_nil in Hl. }
  split; [reflexivity|]. split; [reflexivity|]. split; [discriminate|].
  split; [exact Hdis|].
  exact (set_name_calls_commute
           [0; 1] [2] Ray NdArray "Ray" "points" store1
           eq_refl eq_refl ltac:(discriminate) Hdis).
Defined.

Lemma legendgroup_marks_the_call_witness :
  (forall l' : loc, legendgroup ((fun _ => blank) l') = None)
  /\ category Ray = Some "Ray"
  /\ (legendgroup
        (objs (snd (set_name [2; 3] Ray
                      (run_calls [([0], Ray); ([1], NdArray)]
                                 {| self := new_TraceNamer;
                                    objs := fun _ => blank |}))) 2)
      = Some "Ray 1"
      <-> 2 ∈ [2; 3]).
Proof.
  split; [reflexivity|]. split; [reflexivity|].
  exact (legendgroup_marks_the_call
           [([0], Ray); ([1], NdArray)] (fun _ => blank) [2; 3] Ray "Ray" 2
           (fun _ => eq_refl) eq_refl).
Defined.

(** ** A trace across several calls *)

Section Relabelling.
Context {Source : Type} `{SourceOps Source}.

(** X10: over any sequence of calls, a trace that had no name takes
    its name from the first call that lists it and keeps it from then
    on, a trace that had a name keeps that one, and the legend group of
    a trace is always that of the last call that listed it. *)
Theorem name_from_first_call_group_from_last
        (cs : list call) (s : Store) (l : loc) :
  name (objs (run_calls cs s) l)
  = (if truthy (name (objs s l)) then name (objs s l)
     else match head (labels_for l cs s) with
          | Some lbl => Some lbl
          | None => name (objs s l)
          end)
  /\ legendgroup (objs (run_calls cs s) l)
     = match last (labels_for l cs s) with
       | Some lbl => Some lbl
       | None => legendgroup (objs s l)
       end.
Proof.
  revert s. induction cs as [|c cs IH]; intros s.
  - cbn [run_calls fold_left labels_for head last].
    split; [now destruct (truthy (name (objs s l))) | reflexivity].
  - rewrite run_calls_cons. cbn [labels_for].
    destruct (IH (snd (set_name (fst c) (snd c) s))) as [IHn IHg].
    rewrite IHn, IHg. clear IH IHn IHg.
    rewrite !set_name_objs.
    destruct (category (snd c)) as [cat|]; [|split; reflexivity].
    destruct (bool_decide (l ∈ fst c)); [|split; reflexivity].
    cbn [stamp name legendgroup head]. split.
    + destruct (truthy (name (objs s l))) eqn:T.
      * now rewrite T.
      * now rewrite fmt_name_id_truthy.
    + rewrite last_cons.
      now destruct (last (labels_for l cs (snd (set_name (fst c) (snd c) s)))).
Qed.
End Relabelling.
